(** * scripts/json_qa_to_verl_sft_parquet.py

    A shallow embedding of the QA-to-parquet converter: the Item Reader
    [iter_items], the Row Mapper [make_row] and the Columnar Writer
    [write_parquet], together with the properties the specification
    states about them.

    Conventions.
    - A Python [dict] with string keys is a [gmap string pyval]; Python
      compares dicts without regard to insertion order, as [gmap] does.
    - A Python [str] is a [string] holding its UTF-8 bytes; byte-wise
      lexicographic order coincides with Python's code-point order.
    - A raised exception is the [Raise] branch of [result]; the holes of
      each f-string message are the arguments of the [exn] constructor.
    - The JSON decoders ([json.loads], [ijson.items]) and the parquet
      library are outside the program: decoders are section variables,
      file operations are events of a trace driven by an I/O oracle. *)

From Stdlib Require Import ZArith Strings.Byte.
From stdpp Require Import gmap strings list sorting.

Set Warnings "-register-all".
Set Default Proof Using "Type".

(** ** Python values *)

(** The values the two JSON readers can put in a record.  A [float] is
    carried as its 64-bit pattern and a [Decimal] (produced by the
    streaming reader) as its literal; the program never inspects either. *)
Inductive pyval : Type :=
  | PNone
  | PBool (b : bool)
  | PInt (z : Z)
  | PFloat (bits : Z)
  | PDecimal (lit : string)
  | PStr (s : string)
  | PList (l : list pyval)
  | PDict (d : gmap string pyval).

(** [type(v)] *)
Inductive pytype : Type :=
  | TNoneType | TBool | TInt | TFloat | TDecimal | TStr | TList | TDict.

Definition type_of (v : pyval) : pytype :=
  match v with
  | PNone => TNoneType
  | PBool _ => TBool
  | PInt _ => TInt
  | PFloat _ => TFloat
  | PDecimal _ => TDecimal
  | PStr _ => TStr
  | PList _ => TList
  | PDict _ => TDict
  end.

(** [v is None] *)
Definition is_None (v : pyval) : bool :=
  match v with PNone => true | _ => false end.

(** [isinstance(v, str)] *)
Definition isinstance_str (v : pyval) : bool :=
  match v with PStr _ => true | _ => false end.

(** [d.get(k)]: the value at [k], [None] when the key is absent. *)
Definition dict_get (d : gmap string pyval) (k : string) : pyval :=
  default PNone (d !! k).

(** ** Exceptions *)

(** The spec's error kinds are the Python exceptions of the source:
    MissingFieldKind is [KeyError], TypeMismatchKind is [TypeError],
    UnsupportedFormatKind / TypeKind are [ValueError]s, ParseKind is the
    decoder's [JSONDecodeError]. *)
Inductive exn : Type :=
  | KeyError (input_key output_key : string) (got_keys : list string)
      (* "Missing keys: {input_key!r} / {output_key!r}. Got keys={...}" *)
  | TypeError (tq ta : pytype)
      (* "Expected strings; got {type(q)} / {type(a)}" *)
  | ValueError_unknown_format (out_format : string)
      (* "Unknown out_format: {out_format}" *)
  | ValueError_expected_array (path : string)
      (* "Expected a JSON array in {path}" *)
  | ValueError_expected_dict (t : pytype)
      (* "Expected dict items, got {type(obj)}" *)
  | JSONDecodeError (msg : string)
  | OSError (msg : string).

Inductive result (A : Type) : Type :=
  | Ok (a : A)
  | Raise (e : exn).
Arguments Ok {A} a.
Arguments Raise {A} e.

(** ** [sorted] on strings *)

Definition str_le (s1 s2 : string) : Prop := Is_true (String.leb s1 s2).

#[global] Instance str_le_dec : RelDecision str_le :=
  λ s1 s2, Is_true_dec (String.leb s1 s2).

(** [sorted(l)] for a list of strings. *)
Definition sorted (l : list string) : list string := merge_sort str_le l.

(** [d.keys()], up to order (every use in the program sorts it). *)
Definition dict_keys (d : gmap string pyval) : list string := elements (dom d : gset string).

(** ** Row Mapper *)

(** [{"role": role, "content": content}] *)
Definition message (role content : string) : pyval :=
  PDict {[ "role" := PStr role; "content" := PStr content ]}.

(** [if system_prompt:] is false for [None] and for the empty string. *)
Definition truthy (system_prompt : option string) : bool :=
  match system_prompt with
  | None => false
  | Some p => negb (String.eqb p "")
  end.

Definition make_row (item : gmap string pyval)
    (input_key output_key out_format : string)
    (system_prompt : option string) : result (gmap string pyval) :=
  let q := dict_get item input_key in
  let a := dict_get item output_key in
  if is_None q || is_None a then
    Raise (KeyError input_key output_key (sorted (dict_keys item)))
  else if negb (isinstance_str q) || negb (isinstance_str a) then
    Raise (TypeError (type_of q) (type_of a))
  else if String.eqb out_format "single_turn" then
    Ok {[ "question" := q; "answer" := a ]}
  else if String.eqb out_format "messages" then
    let messages := [] in
    let messages :=
      match system_prompt with
      | Some p => if truthy system_prompt
                  then messages ++ [message "system" p] else messages
      | None => messages
      end in
    let messages := messages ++ [PDict {[ "role" := PStr "user"; "content" := q ]}] in
    let messages := messages ++ [PDict {[ "role" := PStr "assistant"; "content" := a ]}] in
    Ok {[ "messages" := PList messages ]}
  else
    Raise (ValueError_unknown_format out_format).

(** A designated field is missing when the key is absent or holds [None]. *)
Definition missing (item : gmap string pyval) (k : string) : Prop :=
  item !! k = None ∨ item !! k = Some PNone.

(** ** Bytes of the input file *)

Abbreviation bytes := (list byte).

#[global] Instance byte_eq_dec : EqDecision byte := Byte.byte_eq_dec.

Definition LF : byte := x0a.
Definition LBRACKET : byte := x5b.

(** [b in b" \t\r\n"], the whitespace of the peek loop. *)
Definition peek_ws (b : byte) : bool :=
  match b with
  | x20 | x09 | x0d | x0a => true
  | _ => false
  end.

(** The peek loop: the first byte outside [b" \t\r\n"], [None] at end of
    file. *)
Fixpoint peek (content : bytes) : option byte :=
  match content with
  | [] => None
  | b :: rest => if peek_ws b then peek rest else Some b
  end.

(** The bytes [bytes.strip()] removes: space, \t, \n, \r, \x0b, \x0c. *)
Definition is_space (b : byte) : bool :=
  match b with
  | x20 | x09 | x0a | x0d | x0b | x0c => true
  | _ => false
  end.

Fixpoint lstrip (l : bytes) : bytes :=
  match l with
  | [] => []
  | b :: rest => if is_space b then lstrip rest else l
  end.

Definition rstrip (l : bytes) : bytes := reverse (lstrip (reverse l)).

(** [line.strip()] *)
Definition strip (l : bytes) : bytes := rstrip (lstrip l).

(** Iterating a binary file: the lines, each keeping its ending \n; the
    last line may have none. *)
Fixpoint readlines (content : bytes) : list bytes :=
  match content with
  | [] => []
  | b :: rest =>
      if decide (b = LF) then [b] :: readlines rest
      else match readlines rest with
           | [] => [[b]]
           | line :: lines => (b :: line) :: lines
           end
  end.

(** ** Item Reader *)

(** What consuming a generator to its end observes: the items yielded, in
    order, and the exception that ended it, if any. *)
Record gen : Type := Gen {
  yielded : list (gmap string pyval);
  raised : option exn
}.

Definition gen_yield (d : gmap string pyval) (g : gen) : gen :=
  Gen (d :: yielded g) (raised g).

Definition gen_raise (e : exn) : gen := Gen [] (Some e).

(** [for obj in objs: if not isinstance(obj, dict): raise ...; yield obj];
    [ending] is how the iteration over [objs] itself ends. *)
Fixpoint yield_dicts (objs : list pyval) (ending : option exn) : gen :=
  match objs with
  | [] => Gen [] ending
  | obj :: rest =>
      match obj with
      | PDict d => gen_yield d (yield_dicts rest ending)
      | _ => gen_raise (ValueError_expected_dict (type_of obj))
      end
  end.

Section Reader.
(** [json.loads] on bytes ([json.load(f)] is [json.loads(f.read())]). *)
Variable json_loads : bytes → result pyval.
(** [ijson.items(f, "item")] when the import succeeded: the objects it
    yields and the exception that ends it, if any. *)
Variable ijson : option (bytes → list pyval * option exn).

(** The JSONL loop over the lines of the file. *)
Fixpoint iter_lines (lines : list bytes) : gen :=
  match lines with
  | [] => Gen [] None
  | line :: rest =>
      let line := strip line in
      match line with
      | [] => iter_lines rest
      | _ =>
          match json_loads line with
          | Raise e => gen_raise e
          | Ok obj =>
              match obj with
              | PDict d => gen_yield d (iter_lines rest)
              | _ => gen_raise (ValueError_expected_dict (type_of obj))
              end
          end
      end
  end.

Definition iter_jsonl (content : bytes) : gen := iter_lines (readlines content).

Definition iter_array (path : string) (content : bytes) : gen :=
  match ijson with
  | None =>
      match json_loads content with
      | Raise e => gen_raise e
      | Ok data =>
          match data with
          | PList objs => yield_dicts objs None
          | _ => gen_raise (ValueError_expected_array path)
          end
      end
  | Some items =>
      let '(objs, ending) := items content in yield_dicts objs ending
  end.

(** [iter_items(path)], for a file at [path] holding [content]. *)
Definition iter_items (path : string) (content : bytes) : gen :=
  let first := peek content in
  if decide (first = Some LBRACKET) then iter_array path content
  else iter_jsonl content.
End Reader.

(** ** Columnar Writer *)

(** The two schemas [write_parquet] chooses between. *)
Inductive schema : Type :=
  | schema_single_turn   (* [("question", string), ("answer", string)] *)
  | schema_messages.     (* [("messages", list<struct<role, content>>)] *)

(** [pa.Table.from_pylist(buf, schema=schema)] *)
Record table : Type := Table {
  table_schema : schema;
  table_rows : list (gmap string pyval)
}.

(** [pq.ParquetWriter(output_path, schema=schema, compression="zstd")] *)
Record ParquetWriter : Type := {
  pw_path : string;
  pw_schema : schema
}.

(** What the run does to the file system, in order. *)
Inductive event : Type :=
  | EvMakedirs (output_path : string)
  | EvOpen (w : ParquetWriter)
  | EvWriteTable (t : table)
  | EvClose.

(** Which library calls fail with an I/O error: creating the directories,
    opening the output file, and the [k]-th call of [write_table]
    (counted from 0).  A failed [ParquetWriter(...)] leaves no handle
    behind, and [close()] releases the handle: what the parquet library
    does inside these calls is not part of the program. *)
Record io_env : Type := {
  makedirs_ok : bool;
  open_ok : bool;
  write_ok : nat → bool
}.

(** The local variables of [write_parquet] shared with [flush], and the
    trace of file operations so far. *)
Record wstate : Type := WState {
  writer : option ParquetWriter;
  buf : list (gmap string pyval);
  total : nat;
  trace : list event
}.

(** Statements that update the state and may raise. *)
Definition M (A : Type) : Type := wstate → result A * wstate.

#[global] Instance M_ret : MRet M := λ A a s, (Ok a, s).
#[global] Instance M_bind : MBind M := λ A B f m s,
  match m s with
  | (Ok a, s') => f a s'
  | (Raise e, s') => (Raise e, s')
  end.

Definition get_state : M wstate := λ s, (Ok s, s).
Definition raise {A} (e : exn) : M A := λ s, (Raise e, s).
Definition emit (ev : event) : M unit :=
  λ s, (Ok (), WState (writer s) (buf s) (total s) (trace s ++ [ev])).
Definition set_writer (w : ParquetWriter) : M unit :=
  λ s, (Ok (), WState (Some w) (buf s) (total s) (trace s)).
Definition set_buf (b : list (gmap string pyval)) : M unit :=
  λ s, (Ok (), WState (writer s) b (total s) (trace s)).
Definition set_total (n : nat) : M unit :=
  λ s, (Ok (), WState (writer s) (buf s) n (trace s)).

(** [try: body finally: fin] *)
Definition try_finally {A} (body : M A) (fin : M unit) : M A := λ s,
  let '(r, s') := body s in
  match fin s' with
  | (Ok _, s'') => (r, s'')
  | (Raise e, s'') => (Raise e, s'')
  end.

(** [for it in g: body(it)], the generator's own exception surfacing once
    its items are consumed. *)
Fixpoint for_each (items : list (gmap string pyval))
    (body : gmap string pyval → M unit) : M unit :=
  match items with
  | [] => mret ()
  | it :: rest => body it;; for_each rest body
  end.

Definition for_gen (g : gen) (body : gmap string pyval → M unit) : M unit :=
  for_each (yielded g) body;;
  match raised g with
  | Some e => raise e
  | None => mret ()
  end.

(** The number of tables written so far. *)
Definition is_write (ev : event) : bool :=
  match ev with EvWriteTable _ => true | _ => false end.

Definition writes (tr : list event) : nat := length (List.filter is_write tr).

Section Writer.
Variable json_loads : bytes → result pyval.
Variable ijson : option (bytes → list pyval * option exn).
Variable io : io_env.

Definition os_makedirs (output_path : string) : M unit :=
  if makedirs_ok io then emit (EvMakedirs output_path)
  else raise (OSError "makedirs").

Definition open_writer (output_path : string) (sch : schema) : M ParquetWriter :=
  let w := {| pw_path := output_path; pw_schema := sch |} in
  if open_ok io then emit (EvOpen w);; mret w
  else raise (OSError "open").

Definition write_table (t : table) : M unit :=
  s ← get_state;
  if write_ok io (writes (trace s)) then emit (EvWriteTable t)
  else raise (OSError "write_table").

Definition close : M unit := emit EvClose.

Definition flush (output_path : string) (sch : schema) : M unit :=
  s ← get_state;
  match buf s with
  | [] => mret ()
  | _ =>
      let t := Table sch (buf s) in
      match writer s with
      | None => w ← open_writer output_path sch; set_writer w
      | Some _ => mret ()
      end;;
      write_table t;;
      s ← get_state;
      set_total (total s + length (buf s));;
      set_buf []
  end.

(** The body of the [for] loop. *)
Definition consume (output_path input_key output_key out_format : string)
    (system_prompt : option string) (batch_size : Z) (sch : schema)
    (it : gmap string pyval) : M unit :=
  match make_row it input_key output_key out_format system_prompt with
  | Raise e => raise e
  | Ok row =>
      s ← get_state;
      set_buf (buf s ++ [row]);;
      s ← get_state;
      if (Z.of_nat (length (buf s)) >=? batch_size)%Z
      then flush output_path sch else mret ()
  end.

(** The [finally] block. *)
Definition release : M unit :=
  s ← get_state;
  match writer s with
  | Some _ => close
  | None => mret ()
  end.

(** The [try] block. *)
Definition try_block (path : string) (content : bytes)
    (output_path input_key output_key out_format : string)
    (system_prompt : option string) (batch_size : Z) (sch : schema) : M unit :=
  for_gen (iter_items json_loads ijson path content)
    (consume output_path input_key output_key out_format system_prompt
       batch_size sch);;
  flush output_path sch.

Definition write_parquet_body (path : string) (content : bytes)
    (output_path input_key output_key out_format : string)
    (system_prompt : option string) (batch_size : Z) : M nat :=
  os_makedirs output_path;;
  let sch := if String.eqb out_format "single_turn"
             then schema_single_turn else schema_messages in
  try_finally
    (try_block path content output_path input_key output_key out_format
       system_prompt batch_size sch)
    release;;
  s ← get_state;
  mret (total s).

(** [write_parquet(...)]: what it returns or raises, and the file
    operations it performed. *)
Definition write_parquet (path : string) (content : bytes)
    (output_path input_key output_key out_format : string)
    (system_prompt : option string) (batch_size : Z)
    : result nat * list event :=
  let '(r, s) := write_parquet_body path content output_path input_key
                   output_key out_format system_prompt batch_size
                   (WState None [] 0 []) in
  (r, trace s).
End Writer.

(** ** Observations on a run *)

(** The lifecycle of the output handle; [Invalid] is reached by any
    operation out of order (opening twice, writing or closing a handle
    that is not open). *)
Inductive hstate : Type := Unopened | Opened | Closed | Invalid.

Definition hstep (h : hstate) (ev : event) : hstate :=
  match ev, h with
  | EvMakedirs _, _ => h
  | EvOpen _, Unopened => Opened
  | EvWriteTable _, Opened => Opened
  | EvClose, Opened => Closed
  | _, _ => Invalid
  end.

Definition run_handle (tr : list event) : hstate := fold_left hstep tr Unopened.

(** The rows of the output file, in the order written. *)
Fixpoint rows_written (tr : list event) : list (gmap string pyval) :=
  match tr with
  | [] => []
  | EvWriteTable t :: tr' => table_rows t ++ rows_written tr'
  | _ :: tr' => rows_written tr'
  end.

(** The batches (row groups) of the output file. *)
Fixpoint tables_written (tr : list event) : list table :=
  match tr with
  | [] => []
  | EvWriteTable t :: tr' => t :: tables_written tr'
  | _ :: tr' => tables_written tr'
  end.

(** No library call fails. *)
Definition io_all_ok (io : io_env) : Prop :=
  makedirs_ok io = true ∧ open_ok io = true ∧ ∀ k, write_ok io k = true.

Definition io_good : io_env :=
  {| makedirs_ok := true; open_ok := true; write_ok := λ _, true |}.

(** ** Invariants of the Writer state *)

(** The handle is open exactly while [writer] is set. *)
Definition handle_inv (s : wstate) : Prop :=
  run_handle (trace s) = match writer s with None => Unopened | Some _ => Opened end.

(** [total] counts the rows written so far. *)
Definition count_inv (s : wstate) : Prop :=
  total s = length (rows_written (trace s)).

Definition wf (s : wstate) : Prop := handle_inv s ∧ count_inv s.

(** The statement [m] keeps [I], whether it returns or raises. *)
Definition preserves {A} (I : wstate → Prop) (m : M A) : Prop :=
  ∀ s, I s → I (m s).2.

(** The rows mapped so far: those written, then those buffered. *)
Definition rows_so_far (s : wstate) : list (gmap string pyval) :=
  rows_written (trace s) ++ buf s.

(** The records [items] are valid and map, in order, to [rows]. *)
Definition maps_to (input_key output_key out_format : string)
    (system_prompt : option string)
    (items rows : list (gmap string pyval)) : Prop :=
  Forall2 (λ it row,
    make_row it input_key output_key out_format system_prompt = Ok row)
    items rows.

(** ** Line-delimited files *)

(** The file whose lines, split at \n, are [segs]: every line but the
    last is followed by \n. *)
Fixpoint join_lines (segs : list bytes) : bytes :=
  match segs with
  | [] => []
  | [l] => l
  | l :: rest => l ++ LF :: join_lines rest
  end.

(** A blank line: empty, or whitespace only. *)
Definition blank (l : bytes) : Prop := strip l = [].

#[global] Instance blank_dec l : Decision (blank l) := decide (strip l = []).

Section Lines.
Variable json_loads : bytes → result pyval.

(** Decoding every line as one mapping, with no line skipped: what the
    spec says happens to the lines that are not blank. *)
Fixpoint decode_lines (lines : list bytes) : gen :=
  match lines with
  | [] => Gen [] None
  | line :: rest =>
      match json_loads (strip line) with
      | Raise e => gen_raise e
      | Ok (PDict d) => gen_yield d (decode_lines rest)
      | Ok obj => gen_raise (ValueError_expected_dict (type_of obj))
      end
  end.

(** The lines [segs] hold the records [rs], one per line that is not
    blank. *)
Inductive jsonl_lines : list bytes → list (gmap string pyval) → Prop :=
  | jsonl_nil : jsonl_lines [] []
  | jsonl_blank l segs rs :
      LF ∉ l → blank l → jsonl_lines segs rs → jsonl_lines (l :: segs) rs
  | jsonl_record l segs r rs :
      LF ∉ l → ¬ blank l → json_loads (strip l) = Ok (PDict r) →
      jsonl_lines segs rs → jsonl_lines (l :: segs) (r :: rs).



End Lines.

(** ** A reference decoder

    A decoder for the JSON subset of the examples (null, true, false,
    integers, strings without escapes, arrays, objects), to run the
    Reader on concrete files. *)

Definition QUOTE : byte := x22.

Fixpoint skip_ws (s : bytes) : bytes :=
  match s with
  | [] => []
  | b :: r => if peek_ws b then skip_ws r else s
  end.

Fixpoint scan_string (s acc : bytes) : option (string * bytes) :=
  match s with
  | [] => None
  | b :: r =>
      if decide (b = QUOTE) then Some (String.string_of_list_byte (reverse acc), r)
      else if decide (b = x5c) then None
      else scan_string r (b :: acc)
  end.

Definition digit (b : byte) : option Z :=
  let n := Z.of_N (Byte.to_N b) in
  if ((48 <=? n) && (n <=? 57))%Z then Some (n - 48)%Z else None.

Fixpoint scan_digits (s : bytes) (acc : Z) : Z * bytes :=
  match s with
  | [] => (acc, [])
  | b :: r =>
      match digit b with
      | Some d => scan_digits r (10 * acc + d)%Z
      | None => (acc, s)
      end
  end.

Inductive parse_mode : Type :=
  | MValue
  | MElements (acc : list pyval)
  | MMembers (acc : gmap string pyval).

Fixpoint parse (fuel : nat) (m : parse_mode) (s : bytes) : option (pyval * bytes) :=
  match fuel with
  | O => None
  | S n =>
      match m with
      | MValue =>
          match skip_ws s with
          | [] => None
          | b :: r =>
              if decide (b = LBRACKET) then
                match skip_ws r with
                | x5d :: r' => Some (PList [], r')
                | _ => parse n (MElements []) r
                end
              else if decide (b = x7b) then
                match skip_ws r with
                | x7d :: r' => Some (PDict ∅, r')
                | _ => parse n (MMembers ∅) r
                end
              else if decide (b = QUOTE) then
                '(str, r') ← scan_string r []; Some (PStr str, r')
              else if decide (b = x2d) then
                match r with
                | d :: _ => if digit d is Some _ then let '(z, r') := scan_digits r 0 in
                                           Some (PInt (- z), r')
                            else None
                | [] => None
                end
              else if digit b is Some _ then
                let '(z, r') := scan_digits (b :: r) 0 in Some (PInt z, r')
              else
                match b :: r with
                | x6e :: x75 :: x6c :: x6c :: r' => Some (PNone, r')
                | x74 :: x72 :: x75 :: x65 :: r' => Some (PBool true, r')
                | x66 :: x61 :: x6c :: x73 :: x65 :: r' => Some (PBool false, r')
                | _ => None
                end
          end
      | MElements acc =>
          '(v, r) ← parse n MValue s;
          match skip_ws r with
          | x2c :: r' => parse n (MElements (acc ++ [v])) r'
          | x5d :: r' => Some (PList (acc ++ [v]), r')
          | _ => None
          end
      | MMembers acc =>
          match skip_ws s with
          | b :: r =>
              if decide (b = QUOTE) then
                '(k, r1) ← scan_string r [];
                match skip_ws r1 with
                | x3a :: r2 =>
                    '(v, r3) ← parse n MValue r2;
                    match skip_ws r3 with
                    | x2c :: r4 => parse n (MMembers (<[k:=v]> acc)) r4
                    | x7d :: r4 => Some (PDict (<[k:=v]> acc), r4)
                    | _ => None
                    end
                | _ => None
                end
              else None
          | [] => None
          end
      end
  end.

Definition ref_loads (s : bytes) : result pyval :=
  match parse (S (2 * length s)) MValue s with
  | Some (v, r) =>
      match skip_ws r with
      | [] => Ok v
      | _ => Raise (JSONDecodeError "Extra data")
      end
  | None => Raise (JSONDecodeError "Expecting value")
  end.

(** ** Example data *)

(** The bytes of a text, with ['] standing for the double quote. *)
Definition json_text (s : string) : bytes :=
  (λ b, if decide (b = x27) then QUOTE else b) <$> String.list_byte_of_string s.

Definition qa_item : gmap string pyval :=
  <["response" := PStr "4"]> (<["question" := PStr "2+2?"]> ∅).

Definition hi_item : gmap string pyval :=
  <["id" := PInt 7]> (<["response" := PStr "there"]> (<["question" := PStr "hi"]> ∅)).

Definition array_file : bytes :=
  json_text " [{'question': '2+2?', 'response': '4'}, {'question': 'hi', 'response': 'there', 'id': 7}]".

Definition jsonl_segs : list bytes :=
  [json_text "{'question': '2+2?', 'response': '4'}";
   json_text "  ";
   json_text " {'question': 'hi', 'response': 'there', 'id': 7} ";
   []].

Definition jsonl_file : bytes := join_lines jsonl_segs.

(** The first [write_table] succeeds, every later one fails. *)
Definition io_second_write_fails : io_env :=
  {| makedirs_ok := true; open_ok := true; write_ok := λ k, bool_decide (k = 0) |}.

(** [[{"question": "2+2?", "response": "4"}, {"question": 3}]] *)
Definition bad_array_file : bytes :=
  json_text "[{'question': '2+2?', 'response': '4'}, {'question': 3}]".



(** [{"question": null, "response": 5, "extra": "x"}] *)
Definition null_item : gmap string pyval :=
  <["extra" := PStr "x"]> (<["response" := PInt 5]> (<["question" := PNone]> ∅)).

(** [{"question": 3, "response": "x"}] *)
Definition num_item : gmap string pyval :=
  <["response" := PStr "x"]> (<["question" := PInt 3]> ∅).

(** ** Further observations *)

Definition CR : byte := x0d.

(** The two output shapes [make_row] knows. *)
Definition known_format (out_format : string) : Prop :=
  out_format = "single_turn" ∨ out_format = "messages".

(** The schema [write_parquet] picks for [out_format]. *)
Definition schema_of (out_format : string) : schema :=
  if String.eqb out_format "single_turn" then schema_single_turn
  else schema_messages.

(** The size at which the buffer is flushed: [batch_size], or 1 when
    [batch_size] is not positive (the test [len(buf) >= batch_size] then
    holds after every append). *)
Definition batch_limit (batch_size : Z) : nat := Z.to_nat (Z.max 1 batch_size).

(** How the JSONL loop ends on a line that is not blank: the decoder's
    exception, or the complaint about a value that is not a dict. *)
Definition line_error (json_loads : bytes → result pyval) (line : bytes)
    : option exn :=
  match json_loads (strip line) with
  | Raise e => Some e
  | Ok (PDict _) => None
  | Ok obj => Some (ValueError_expected_dict (type_of obj))
  end.

(** The Reader takes [content] for an array, and the array parser in use
    produces the objects [objs], its iteration ending with [ending]. *)
Definition array_parses (json_loads : bytes → result pyval)
    (ijson : option (bytes → list pyval * option exn))
    (content : bytes) (objs : list pyval) (ending : option exn) : Prop :=
  peek content = Some LBRACKET ∧
  match ijson with
  | None => json_loads content = Ok (PList objs) ∧ ending = None
  | Some items => items content = (objs, ending)
  end.

(** Every file operation of the trace is on the writer [w]: it is the one
    opened, and every table has its schema. *)
Definition trace_uses (w : ParquetWriter) (tr : list event) : Prop :=
  Forall (λ ev, match ev with
                | EvOpen w' => w' = w
                | EvWriteTable t => table_schema t = pw_schema w
                | _ => True
                end) tr.

(** The tables are full batches of [m] rows, then at most one shorter,
    non-empty batch. *)
Definition batched (m : nat) (ts : list table) : Prop :=
  ∃ full last,
    ts = full ++ last
    ∧ Forall (λ t, length (table_rows t) = m) full
    ∧ (last = [] ∨ ∃ t, last = [t] ∧ 0 < length (table_rows t) < m).

(** A file of whitespace only: space, \n, \r, \n, \t, \x0b. *)
Definition blank_file : bytes := [x20; x0a; x0d; x0a; x09; x0b].

(** A line-delimited file with Windows line endings, indentation and an
    empty line. *)
Definition crlf_segs : list bytes :=
  [json_text "{'question': '2+2?', 'response': '4'}" ++ [CR];
   [CR];
   json_text "   {'question': 'hi', 'response': 'there', 'id': 7}" ++ [CR];
   []].

(** A line-delimited file whose third line is cut short. *)
Definition truncated_segs : list bytes :=
  [json_text "{'question': '2+2?', 'response': '4'}";
   json_text "";
   json_text "{'question': 'hi', 'respon";
   json_text "{'question': 'x', 'response': 'y'}"].

(** [[{"question": "2+2?", "response": "4"}, 5, {}]] *)
Definition mixed_array_file : bytes :=
  json_text "[{'question': '2+2?', 'response': '4'}, 5, {}]".

(** Three valid records. *)
Definition three_array_file : bytes :=
  json_text "[{'question': 'a', 'response': '1'}, {'question': 'b', 'response': '2'}, {'question': 'c', 'response': '3'}]".


Definition abc_rows : list (gmap string pyval) :=
  [ {[ "question" := PStr "a"; "answer" := PStr "1" ]};
    {[ "question" := PStr "b"; "answer" := PStr "2" ]};
    {[ "question" := PStr "c"; "answer" := PStr "3" ]} ].



(** * Properties *)

Lemma str_le_total : Total str_le.
Proof.
  intros s1 s2. unfold str_le.
  destruct (String.leb_total s1 s2) as [H | H]; rewrite H; [left | right]; exact I.
Qed.

Lemma missing_get item k : missing item k ↔ dict_get item k = PNone.
Proof.
  unfold missing, dict_get. destruct (item !! k) as [v|]; simpl.
  - split; [intros [?|?]; congruence | intros ->; by right].
  - split; [done | by left].
Qed.

Lemma sorted_spec (l : list string) : Sorted str_le (sorted l) ∧ sorted l ≡ₚ l.
Proof.
  unfold sorted. split.
  - apply Sorted_merge_sort. apply str_le_total.
  - apply merge_sort_Permutation.
Qed.

Lemma dict_keys_spec (d : gmap string pyval) k : k ∈ dict_keys d ↔ is_Some (d !! k).
Proof. unfold dict_keys. by rewrite elem_of_elements, elem_of_dom. Qed.

Lemma dict_keys_NoDup (d : gmap string pyval) : NoDup (dict_keys d).
Proof. unfold dict_keys. apply NoDup_elements. Qed.

(** ** Row Mapper *)

(** C1: with both designated fields holding strings, the [single_turn]
    shape is exactly [{question: q, answer: a}], values copied as they
    are, whatever the system prompt. *)
Theorem make_row_single_turn (item : gmap string pyval)
    (input_key output_key q a : string) (system_prompt : option string) :
  item !! input_key = Some (PStr q) →
  item !! output_key = Some (PStr a) →
  make_row item input_key output_key "single_turn" system_prompt
  = Ok {[ "question" := PStr q; "answer" := PStr a ]}.
Proof.
  intros Hq Ha. unfold make_row, dict_get. rewrite Hq, Ha. reflexivity.
Qed.

Lemma make_row_single_turn_witness :
  make_row hi_item "question" "response" "single_turn" (Some "You are terse.")
  = Ok {[ "question" := PStr "hi"; "answer" := PStr "there" ]}.
Proof. apply (make_row_single_turn hi_item "question" "response"); reflexivity. Defined.

(** C2: with both designated fields holding strings, the [messages] shape
    is [{messages: [user q, assistant a]}] when the system prompt is
    absent or empty, and [{messages: [system p, user q, assistant a]}]
    when a non-empty prompt [p] is configured. *)
Theorem make_row_messages (item : gmap string pyval)
    (input_key output_key q a : string) (system_prompt : option string) :
  item !! input_key = Some (PStr q) →
  item !! output_key = Some (PStr a) →
  make_row item input_key output_key "messages" system_prompt
  = Ok {[ "messages" :=
            PList (match system_prompt with
                   | None | Some "" => [message "user" q; message "assistant" a]
                   | Some p => [message "system" p; message "user" q;
                                message "assistant" a]
                   end) ]}.
Proof.
  intros Hq Ha. unfold make_row, dict_get. rewrite Hq, Ha. simpl.
  destruct system_prompt as [[|c p]|]; reflexivity.
Qed.

Lemma make_row_messages_witness :
  make_row qa_item "question" "response" "messages" (Some "You are terse.")
  = Ok {[ "messages" := PList [message "system" "You are terse.";
                               message "user" "2+2?"; message "assistant" "4"] ]}
  ∧ make_row qa_item "question" "response" "messages" (Some "")
  = Ok {[ "messages" := PList [message "user" "2+2?"; message "assistant" "4"] ]}
  ∧ make_row qa_item "question" "response" "messages" None
  = Ok {[ "messages" := PList [message "user" "2+2?"; message "assistant" "4"] ]}.
Proof.
  split; [| split].
  - apply (make_row_messages qa_item "question" "response" "2+2?" "4"
             (Some "You are terse.")); reflexivity.
  - apply (make_row_messages qa_item "question" "response" "2+2?" "4"
             (Some "")); reflexivity.
  - apply (make_row_messages qa_item "question" "response" "2+2?" "4" None);
      reflexivity.
Defined.

(** C3: when either designated field is absent or null, the mapper raises
    the missing-field error (KeyError) naming both field names and the
    sorted keys of the record: a duplicate-free ascending list of exactly
    the keys present.  Nothing is assumed of the other field, of the
    output shape or of the prompt, so the check comes before the
    string-type check. *)
Theorem make_row_missing (item : gmap string pyval)
    (input_key output_key out_format : string) (system_prompt : option string) :
  missing item input_key ∨ missing item output_key →
  ∃ got_keys,
    make_row item input_key output_key out_format system_prompt
    = Raise (KeyError input_key output_key got_keys)
    ∧ Sorted str_le got_keys
    ∧ NoDup got_keys
    ∧ ∀ k, k ∈ got_keys ↔ is_Some (item !! k).
Proof.
  intros Hm. exists (sorted (dict_keys item)).
  destruct (sorted_spec (dict_keys item)) as [Hs Hp].
  repeat split; try done.
  - unfold make_row.
    destruct Hm as [Hm | Hm]; apply missing_get in Hm; rewrite Hm; simpl;
      [done | by rewrite orb_true_r].
  - rewrite Hp. apply dict_keys_NoDup.
  - rewrite Hp. apply dict_keys_spec.
  - rewrite Hp. apply dict_keys_spec.
Qed.

Lemma make_row_missing_witness :
  (missing null_item "question" ∨ missing null_item "response")
  ∧ isinstance_str (dict_get null_item "response") = false
  ∧ ∃ got_keys,
      make_row null_item "question" "response" "single_turn" None
      = Raise (KeyError "question" "response" got_keys)
      ∧ Sorted str_le got_keys ∧ NoDup got_keys
      ∧ ∀ k, k ∈ got_keys ↔ is_Some (null_item !! k).
Proof.
  split; [left; right; reflexivity |].
  split; [reflexivity |].
  apply (make_row_missing null_item "question" "response" "single_turn" None).
  left; right; reflexivity.
Defined.

(** C4: when both designated fields are present and non-null and at least
    one is not a string, the mapper raises the type-mismatch error
    (TypeError) naming the types of both values; a number in the input
    field is one such case. *)
Theorem make_row_not_str (item : gmap string pyval)
    (input_key output_key out_format : string) (system_prompt : option string)
    (q a : pyval) :
  item !! input_key = Some q →
  item !! output_key = Some a →
  q ≠ PNone → a ≠ PNone →
  isinstance_str q = false ∨ isinstance_str a = false →
  make_row item input_key output_key out_format system_prompt
  = Raise (TypeError (type_of q) (type_of a)).
Proof.
  intros Hq Ha Hqn Han Hs. unfold make_row, dict_get. rewrite Hq, Ha. simpl.
  destruct q; try done; destruct a; try done; simpl in *;
    destruct Hs; done.
Qed.

Lemma make_row_not_str_witness :
  make_row num_item "question" "response" "single_turn" None
  = Raise (TypeError TInt TStr).
Proof.
  apply (make_row_not_str num_item "question" "response" "single_turn" None
           (PInt 3) (PStr "x")); try reflexivity; try discriminate.
  left; reflexivity.
Defined.

Lemma make_row_agree (item1 item2 row : gmap string pyval)
    (input_key output_key out_format : string) (system_prompt : option string) :
  dict_get item1 input_key = dict_get item2 input_key →
  dict_get item1 output_key = dict_get item2 output_key →
  make_row item1 input_key output_key out_format system_prompt = Ok row →
  make_row item2 input_key output_key out_format system_prompt = Ok row.
Proof.
  unfold make_row. intros <- <-.
  destruct (is_None _ || is_None _); [done |]. by intros H.
Qed.

(** C10: the row depends only on the values of the two designated fields
    (with the shape and the prompt): two records that agree on both map
    to the same row, whatever else they hold, and the row has no key
    besides those of its shape. *)
Theorem make_row_depends_only (item1 item2 row : gmap string pyval)
    (input_key output_key out_format : string) (system_prompt : option string) :
  dict_get item1 input_key = dict_get item2 input_key →
  dict_get item1 output_key = dict_get item2 output_key →
  make_row item1 input_key output_key out_format system_prompt = Ok row →
  make_row item2 input_key output_key out_format system_prompt = Ok row
  ∧ (dom row = {[ "question"; "answer" ]} ∨ dom row = {[ "messages" ]}).
Proof.
  intros Hq Ha H. split; [by eapply make_row_agree |].
  unfold make_row in H.
  destruct (is_None _ || is_None _); [done |].
  destruct (negb _ || negb _); [done |].
  destruct (String.eqb out_format "single_turn").
  - left. injection H as <-. by rewrite dom_insert_L, dom_singleton_L.
  - destruct (String.eqb out_format "messages"); [| done].
    right. injection H as <-. by rewrite dom_singleton_L.
Qed.

Lemma make_row_depends_only_witness :
  make_row (<["note" := PList [PInt 1]]> qa_item) "question" "response"
    "single_turn" None
  = Ok {[ "question" := PStr "2+2?"; "answer" := PStr "4" ]}
  ∧ (dom ({[ "question" := PStr "2+2?"; "answer" := PStr "4" ]} : gmap string pyval)
     = {[ "question"; "answer" ]}
     ∨ dom ({[ "question" := PStr "2+2?"; "answer" := PStr "4" ]} : gmap string pyval)
     = {[ "messages" ]}).
Proof.
  apply (make_row_depends_only qa_item (<["note" := PList [PInt 1]]> qa_item));
    reflexivity.
Defined.

(** ** Lines and whitespace *)


Lemma is_space_not_bracket b : is_space b = true → b ≠ LBRACKET.
Proof. by destruct b. Qed.

Lemma readlines_app_lf l rest :
  LF ∉ l → readlines (l ++ LF :: rest) = (l ++ [LF]) :: readlines rest.
Proof.
  induction l as [|b l IH]; intros Hl; simpl.
  - done.
  - apply not_elem_of_cons in Hl as [Hb Hl].
    rewrite decide_False by done. by rewrite IH.
Qed.

Lemma readlines_no_lf l : LF ∉ l → l ≠ [] → readlines l = [l].
Proof.
  induction l as [|b l IH]; intros Hl Hne; [done |]. simpl.
  apply not_elem_of_cons in Hl as [Hb Hl].
  rewrite decide_False by done.
  destruct l as [|c l]; [done |]. by rewrite IH.
Qed.



Lemma lstrip_snoc_space l b :
  is_space b = true →
  lstrip (l ++ [b]) = match lstrip l with [] => [] | _ => lstrip l ++ [b] end.
Proof.
  intros Hb. induction l as [|c l IH]; simpl.
  - by rewrite Hb.
  - by destruct (is_space c).
Qed.


Lemma rstrip_snoc_space l b : is_space b = true → rstrip (l ++ [b]) = rstrip l.
Proof.
  intros Hb. unfold rstrip. rewrite reverse_snoc. simpl. by rewrite Hb.
Qed.


Lemma strip_snoc_lf l : strip (l ++ [LF]) = strip l.
Proof.
  unfold strip. rewrite (lstrip_snoc_space l LF) by done.
  destruct (lstrip l) as [|b t] eqn:Hl; [done |].
  rewrite <- Hl. by apply rstrip_snoc_space.
Qed.




Lemma peek_elem l b : peek l = Some b → b ∈ l.
Proof.
  induction l as [|c l IH]; simpl; [done |].
  destruct (peek_ws c).
  - intros H. right. auto.
  - intros [= ->]. left.
Qed.





(** ** Item Reader *)

Section ReaderFacts.
Variable json_loads : bytes → result pyval.
Variable ijson : option (bytes → list pyval * option exn).

Lemma iter_lines_cons line rest :
  iter_lines json_loads (line :: rest)
  = if decide (blank line) then iter_lines json_loads rest
    else match json_loads (strip line) with
         | Raise e => gen_raise e
         | Ok (PDict d) => gen_yield d (iter_lines json_loads rest)
         | Ok obj => gen_raise (ValueError_expected_dict (type_of obj))
         end.
Proof.
  simpl. destruct (decide (blank line)) as [Hb | Hb]; unfold blank in Hb.
  - by rewrite Hb.
  - destruct (strip line) as [|b t]; [done |].
    destruct (json_loads (b :: t)) as [[]|]; done.
Qed.

Lemma iter_lines_cons_lf line rest :
  iter_lines json_loads ((line ++ [LF]) :: rest)
  = iter_lines json_loads (line :: rest).
Proof. simpl. by rewrite strip_snoc_lf. Qed.

Lemma iter_jsonl_cons l l' segs :
  LF ∉ l →
  iter_jsonl json_loads (join_lines (l :: l' :: segs))
  = iter_lines json_loads (l :: readlines (join_lines (l' :: segs))).
Proof.
  intros Hl. unfold iter_jsonl.
  change (join_lines (l :: l' :: segs)) with (l ++ LF :: join_lines (l' :: segs)).
  rewrite readlines_app_lf by done. apply iter_lines_cons_lf.
Qed.

(** The JSONL loop decodes exactly the lines that are not blank. *)
Lemma iter_jsonl_decode segs :
  Forall (λ l, LF ∉ l) segs →
  iter_jsonl json_loads (join_lines segs)
  = decode_lines json_loads (filter (λ l, ¬ blank l) segs).
Proof.
  induction 1 as [|l segs Hl Hsegs IH]; [done |].
  destruct segs as [|l' segs'].
  - unfold iter_jsonl. simpl join_lines.
    destruct (decide (l = [])) as [-> | Hne]; [done |].
    rewrite readlines_no_lf, iter_lines_cons by done.
    rewrite filter_cons. destruct (decide (blank l)) as [Hb | Hb].
    + by rewrite decide_False by tauto.
    + rewrite decide_True by done. simpl.
      destruct (json_loads (strip l)) as [[]|]; done.
  - rewrite iter_jsonl_cons, iter_lines_cons by done.
    fold (iter_jsonl json_loads (join_lines (l' :: segs'))). rewrite IH.
    rewrite (filter_cons _ l). destruct (decide (blank l)) as [Hb | Hb].
    + by rewrite decide_False by tauto.
    + rewrite decide_True by done. simpl.
      destruct (json_loads (strip l)) as [[]|]; done.
Qed.

Lemma filter_nonblank_idemp (segs : list bytes) :
  filter (λ l, ¬ blank l) (filter (λ l, ¬ blank l) segs)
  = filter (λ l, ¬ blank l) segs.
Proof.
  induction segs as [|l segs IH]; [done |].
  rewrite (filter_cons _ l). destruct (decide (¬ blank l)) as [Hb | Hb]; [| done].
  rewrite filter_cons, decide_True by done. by rewrite IH.
Qed.

Lemma filter_nonblank_no_lf (segs : list bytes) :
  Forall (λ l, LF ∉ l) segs →
  Forall (λ l, LF ∉ l) (filter (λ l, ¬ blank l) segs).
Proof.
  induction 1 as [|l segs Hl _ IH]; [constructor |].
  rewrite filter_cons. destruct (decide (¬ blank l)); [by constructor | done].
Qed.

(** C9: in line-delimited mode the Reader skips every blank line and
    decodes each remaining line on its own as one mapping; removing the
    blank lines from the file changes nothing of what it yields or
    raises, so neither the count nor the order of the records. *)
Theorem iter_jsonl_skips_blank (segs : list bytes) :
  Forall (λ l, LF ∉ l) segs →
  iter_jsonl json_loads (join_lines segs)
  = decode_lines json_loads (filter (λ l, ¬ blank l) segs)
  ∧ iter_jsonl json_loads (join_lines segs)
    = iter_jsonl json_loads (join_lines (filter (λ l, ¬ blank l) segs)).
Proof.
  intros Hsegs. split; [by apply iter_jsonl_decode |].
  rewrite !iter_jsonl_decode; [by rewrite filter_nonblank_idemp | | done].
  by apply filter_nonblank_no_lf.
Qed.

Lemma jsonl_lines_no_lf segs rs :
  jsonl_lines json_loads segs rs → Forall (λ l, LF ∉ l) segs.
Proof. induction 1; by constructor. Qed.






End ReaderFacts.

Lemma iter_jsonl_skips_blank_witness :
  yielded (iter_jsonl ref_loads jsonl_file) = [qa_item; hi_item]
  ∧ iter_jsonl ref_loads jsonl_file
    = iter_jsonl ref_loads
        (join_lines (filter (λ l, ¬ blank l) jsonl_segs)).
Proof.
  destruct (iter_jsonl_skips_blank ref_loads jsonl_segs) as [H1 H2].
  - apply (bool_decide_unpack _). vm_compute. exact I.
  - split; [| exact H2]. unfold jsonl_file. rewrite H1. vm_compute. reflexivity.
Defined.

(** ** Columnar Writer *)

Lemma run_handle_snoc tr ev : run_handle (tr ++ [ev]) = hstep (run_handle tr) ev.
Proof. unfold run_handle. by rewrite fold_left_app. Qed.

Lemma rows_written_app tr tr' :
  rows_written (tr ++ tr') = rows_written tr ++ rows_written tr'.
Proof.
  induction tr as [|ev tr IH]; [done |].
  destruct ev; simpl; rewrite IH; by rewrite ?app_assoc.
Qed.

Lemma bind_run {A B} (m : M A) (f : A → M B) s :
  (m ≫= f) s = match m s with
               | (Ok a, s') => f a s'
               | (Raise e, s') => (Raise e, s')
               end.
Proof. reflexivity. Qed.

(** Running the primitive statements of [M]. *)
Ltac run_M :=
  cbv [mbind M_bind mret M_ret get_state raise emit set_writer set_buf
       set_total]; simpl.

Lemma preserves_bind {A B} I (m : M A) (f : A → M B) :
  preserves I m → (∀ a, preserves I (f a)) → preserves I (m ≫= f).
Proof.
  intros Hm Hf s Hs. rewrite bind_run. specialize (Hm s Hs).
  destruct (m s) as [[a | e] s']; simpl in *; [by apply Hf | done].
Qed.

Lemma preserves_ret {A} I (a : A) : preserves I (mret a).
Proof. by intros s Hs. Qed.

Lemma preserves_raise {A} I e : preserves I (raise (A := A) e).
Proof. by intros s Hs. Qed.

Lemma preserves_for_each I items body :
  (∀ it, preserves I (body it)) → preserves I (for_each items body).
Proof.
  intros Hbody. induction items as [|it items IH]; simpl.
  - apply preserves_ret.
  - apply preserves_bind; [apply Hbody | by intros _].
Qed.

Lemma preserves_for_gen I g body :
  (∀ it, preserves I (body it)) → preserves I (for_gen g body).
Proof.
  intros Hbody. unfold for_gen. apply preserves_bind.
  - by apply preserves_for_each.
  - intros _. destruct (raised g); [apply preserves_raise | apply preserves_ret].
Qed.

Section WriterFacts.
Variable json_loads : bytes → result pyval.
Variable ijson : option (bytes → list pyval * option exn).
Variable io : io_env.

Lemma flush_wf output_path sch : preserves wf (flush io output_path sch).
Proof.
  intros [w b n tr] [Hh Hc]. unfold wf, handle_inv, count_inv in *. simpl in *.
  unfold flush, open_writer, write_table.
  destruct b as [|row b]; [done |].
  destruct w as [w|]; run_M.
  - destruct (write_ok io (writes tr)); simpl; [| done].
    rewrite run_handle_snoc, rows_written_app, Hh, length_app, Hc. simpl.
    by rewrite app_nil_r.
  - destruct (open_ok io); simpl; [| done].
    destruct (write_ok io _); simpl.
    + rewrite !run_handle_snoc, !rows_written_app, Hh, !length_app, Hc. simpl.
      rewrite app_nil_r. split; [done | lia].
    + by rewrite run_handle_snoc, rows_written_app, Hh, app_nil_r.
Qed.

Lemma consume_wf output_path input_key output_key out_format system_prompt
    batch_size sch it :
  preserves wf (consume io output_path input_key output_key out_format
                  system_prompt batch_size sch it).
Proof.
  unfold consume. destruct (make_row _ _ _ _ _) as [row | e];
    [| apply preserves_raise].
  intros [w b n tr] Hs. run_M.
  destruct (_ >=? _)%Z; [| done]. by apply flush_wf.
Qed.

Lemma release_run s :
  release s = (Ok (), WState (writer s) (buf s) (total s)
                        (trace s ++ match writer s with
                                    | Some _ => [EvClose]
                                    | None => []
                                    end)).
Proof.
  destruct s as [[w|] b n tr]; unfold release, close; run_M; [done |].
  by rewrite app_nil_r.
Qed.

(** [write_parquet] unfolded down to its [try] block. *)
Lemma write_parquet_unfold path content output_path input_key output_key
    out_format system_prompt batch_size :
  write_parquet json_loads ijson io path content output_path input_key
    output_key out_format system_prompt batch_size
  = if makedirs_ok io then
      let sch := if String.eqb out_format "single_turn"
                 then schema_single_turn else schema_messages in
      let '(r, s) := try_block json_loads ijson io path content output_path
                       input_key output_key out_format system_prompt
                       batch_size sch
                       (WState None [] 0 [EvMakedirs output_path]) in
      (match r with Ok _ => Ok (total s) | Raise e => Raise e end,
       trace s ++ match writer s with Some _ => [EvClose] | None => [] end)
    else (Raise (OSError "makedirs"), []).
Proof.
  unfold write_parquet, write_parquet_body, os_makedirs.
  destruct (makedirs_ok io); [| done].
  rewrite bind_run. run_M. unfold try_finally.
  destruct (try_block _ _ _ _ _ _ _ _ _ _ _ _ _) as [r s].
  rewrite release_run. by destruct r.
Qed.

Lemma try_block_wf path content output_path input_key output_key out_format
    system_prompt batch_size sch :
  preserves wf (try_block json_loads ijson io path content output_path
                  input_key output_key out_format system_prompt batch_size sch).
Proof.
  apply preserves_bind; [| intros _; apply flush_wf].
  apply preserves_for_gen. intros it. apply consume_wf.
Qed.

(** Every run leaves the handle unopened or closed, and a returned count
    is the number of rows written. *)
Lemma write_parquet_run path content output_path input_key output_key
    out_format system_prompt batch_size :
  let run := write_parquet json_loads ijson io path content output_path
               input_key output_key out_format system_prompt batch_size in
  (run_handle run.2 = Unopened ∨ run_handle run.2 = Closed)
  ∧ ∀ n, run.1 = Ok n → n = length (rows_written run.2).
Proof.
  intros run. subst run. rewrite write_parquet_unfold.
  destruct (makedirs_ok io); [| split; [by left | done]].
  set (s0 := WState None [] 0 [EvMakedirs output_path]).
  set (sch := if String.eqb out_format "single_turn" then _ else _).
  assert (Hs0 : wf s0) by done.
  apply (try_block_wf path content output_path input_key output_key
           out_format system_prompt batch_size sch) in Hs0.
  cbv zeta.
  destruct (try_block _ _ _ _ _ _ _ _ _ _ _ _ s0) as [r [w b n tr]].
  destruct Hs0 as [Hh Hc]. unfold handle_inv, count_inv in *. simpl in *.
  split.
  - destruct w; [right | left].
    + by rewrite run_handle_snoc, Hh.
    + by rewrite app_nil_r.
  - intros m Hm. destruct r; [| done]. injection Hm as <-.
    rewrite rows_written_app, Hc. destruct w; simpl; by rewrite app_nil_r.
Qed.
Lemma flush_ok output_path sch s :
  io_all_ok io →
  ∃ s', flush io output_path sch s = (Ok (), s')
        ∧ buf s' = [] ∧ rows_written (trace s') = rows_so_far s.
Proof.
  intros (_ & Hopen & Hwrite). destruct s as [w b n tr].
  unfold flush, open_writer, write_table, rows_so_far.
  destruct b as [|row b]; run_M.
  - eexists. split; [done |]. by rewrite app_nil_r.
  - destruct w as [w|]; run_M; rewrite ?Hopen; run_M; rewrite Hwrite;
      eexists; (split; [done |]); simpl;
      rewrite ?rows_written_app; simpl; rewrite !app_nil_r; by split.
Qed.

Lemma consume_ok output_path input_key output_key out_format system_prompt
    batch_size sch it row s :
  io_all_ok io →
  make_row it input_key output_key out_format system_prompt = Ok row →
  ∃ s', consume io output_path input_key output_key out_format system_prompt
          batch_size sch it s = (Ok (), s')
        ∧ rows_so_far s' = rows_so_far s ++ [row].
Proof.
  intros Hio Hrow. unfold consume. rewrite Hrow.
  destruct s as [w b n tr]. run_M.
  destruct (_ >=? _)%Z.
  - destruct (flush_ok output_path sch (WState w (b ++ [row]) n tr) Hio)
      as (s' & Hf & Hb & Hr).
    exists s'. split; [done |].
    unfold rows_so_far in *. simpl in *. by rewrite Hb, Hr, app_nil_r, app_assoc.
  - eexists. split; [done |]. unfold rows_so_far. simpl. by rewrite app_assoc.
Qed.

Lemma for_each_ok output_path input_key output_key out_format system_prompt
    batch_size sch items rows :
  io_all_ok io →
  maps_to input_key output_key out_format system_prompt items rows →
  ∀ s, ∃ s',
    for_each items (consume io output_path input_key output_key out_format
                      system_prompt batch_size sch) s = (Ok (), s')
    ∧ rows_so_far s' = rows_so_far s ++ rows.
Proof.
  intros Hio. induction 1 as [|it row items rows Hrow _ IH]; intros s.
  - exists s. split; [done |]. by rewrite app_nil_r.
  - destruct (consume_ok output_path input_key output_key out_format
                system_prompt batch_size sch it row s Hio Hrow)
      as (s1 & Hc & Hr1).
    destruct (IH s1) as (s2 & Hf & Hr2).
    exists s2. split.
    + simpl. rewrite bind_run, Hc. exact Hf.
    + rewrite Hr2, Hr1. by rewrite <- app_assoc.
Qed.

(** A run on valid records, with no I/O failure, returns their number and
    writes their rows in order. *)
Lemma write_parquet_valid path content output_path input_key output_key
    out_format system_prompt batch_size items rows :
  io_all_ok io →
  iter_items json_loads ijson path content = Gen items None →
  maps_to input_key output_key out_format system_prompt items rows →
  let run := write_parquet json_loads ijson io path content output_path
               input_key output_key out_format system_prompt batch_size in
  run.1 = Ok (length items) ∧ rows_written run.2 = rows.
Proof.
  intros Hio Hgen Hmap run.
  assert (Hrows : rows_written run.2 = rows ∧ ∃ n, run.1 = Ok n).
  { subst run. rewrite write_parquet_unfold.
    destruct Hio as (Hmk & Hio'). rewrite Hmk. cbv zeta.
    set (s0 := WState None [] 0 [EvMakedirs output_path]).
    set (sch := if String.eqb out_format "single_turn" then _ else _).
    unfold try_block, for_gen. rewrite Hgen. simpl yielded. simpl raised.
    destruct (for_each_ok output_path input_key output_key out_format
                system_prompt batch_size sch items rows
                (conj Hmk Hio') Hmap s0) as (s1 & Hf & Hr1).
    destruct (flush_ok output_path sch s1 (conj Hmk Hio')) as (s2 & Hfl & Hb & Hr2).
    rewrite !bind_run, Hf. run_M. rewrite Hfl. simpl.
    split; [| by eexists].
    rewrite rows_written_app, Hr2, Hr1.
    destruct (writer s2); simpl; by rewrite app_nil_r. }
  destruct Hrows as [Hrows [n Hn]].
  split; [| done].
  destruct (write_parquet_run path content output_path input_key output_key
              out_format system_prompt batch_size) as [_ Hcount].
  fold run in Hcount. rewrite Hn. f_equal.
  rewrite (Hcount n Hn), Hrows. symmetry. by eapply Forall2_length.
Qed.

Lemma maps_to_agree input_key output_key out_format system_prompt
    items1 items2 rows :
  Forall2 (λ i1 i2, dict_get i1 input_key = dict_get i2 input_key
                    ∧ dict_get i1 output_key = dict_get i2 output_key)
    items1 items2 →
  maps_to input_key output_key out_format system_prompt items1 rows →
  maps_to input_key output_key out_format system_prompt items2 rows.
Proof.
  unfold maps_to. intros Hagree. revert rows.
  induction Hagree as [|i1 i2 items1 items2 [Hq Ha] _ IH]; intros rows Hmap.
  - by inversion Hmap.
  - inversion Hmap as [|? row ? rows' Hrow Hrest]; subst.
    constructor; [by eapply make_row_agree | by apply IH].
Qed.

(** Two inputs whose records agree on the designated fields (whatever the
    parser made of the other fields) give the same count and rows. *)
Lemma write_parquet_same_fields path1 content1 path2 content2 output_path
    input_key output_key out_format system_prompt batch_size
    items1 items2 rows :
  io_all_ok io →
  iter_items json_loads ijson path1 content1 = Gen items1 None →
  iter_items json_loads ijson path2 content2 = Gen items2 None →
  Forall2 (λ i1 i2, dict_get i1 input_key = dict_get i2 input_key
                    ∧ dict_get i1 output_key = dict_get i2 output_key)
    items1 items2 →
  maps_to input_key output_key out_format system_prompt items1 rows →
  let run1 := write_parquet json_loads ijson io path1 content1 output_path
                input_key output_key out_format system_prompt batch_size in
  let run2 := write_parquet json_loads ijson io path2 content2 output_path
                input_key output_key out_format system_prompt batch_size in
  run1.1 = run2.1 ∧ rows_written run1.2 = rows_written run2.2.
Proof.
  intros Hio Hg1 Hg2 Hagree Hmap run1 run2.
  destruct (write_parquet_valid path1 content1 output_path input_key
              output_key out_format system_prompt batch_size items1 rows
              Hio Hg1 Hmap) as [Hr1 Hw1].
  destruct (write_parquet_valid path2 content2 output_path input_key
              output_key out_format system_prompt batch_size items2 rows
              Hio Hg2 (maps_to_agree _ _ _ _ _ _ _ Hagree Hmap)) as [Hr2 Hw2].
  fold run1 in Hr1, Hw1. fold run2 in Hr2, Hw2.
  rewrite Hr1, Hr2, Hw1, Hw2. split; [| done].
  f_equal. by eapply Forall2_length.
Qed.


(** C6: on every exit path of [write_parquet] (normal return, an error
    from the Reader or the Mapper, an I/O error in a flush) the output
    handle is not left open: it was never opened, or it was opened once
    and closed once, in that order. *)
Theorem write_parquet_handle_released path content output_path input_key
    output_key out_format system_prompt batch_size :
  let tr := (write_parquet json_loads ijson io path content output_path
               input_key output_key out_format system_prompt batch_size).2 in
  run_handle tr = Unopened ∨ run_handle tr = Closed.
Proof.
  intros tr.
  by destruct (write_parquet_run path content output_path input_key output_key
                 out_format system_prompt batch_size) as [H _].
Qed.



End WriterFacts.

(** ** The reference decoder and the examples *)








(** An I/O error in the second flush: the error propagates, one row is
    in the file, and the handle has been closed. *)
Example write_parquet_failing_flush :
  let run := write_parquet ref_loads None io_second_write_fails "qa.json"
               array_file "out/qa.parquet" "question" "response"
               "single_turn" None 1 in
  run.1 = Raise (OSError "write_table")
  ∧ run_handle run.2 = Closed
  ∧ length (rows_written run.2) = 1.
Proof. vm_compute. by repeat split. Qed.

(** A record without its output field, after a flushed batch: the
    missing-field error propagates and the handle has been closed. *)
Example write_parquet_failing_record :
  let run := write_parquet ref_loads None io_good "bad.json" bad_array_file
               "out/qa.parquet" "question" "response" "single_turn" None 1 in
  run.1 = Raise (KeyError "question" "response" ["question"])
  ∧ run_handle run.2 = Closed
  ∧ length (rows_written run.2) = 1.
Proof. vm_compute. by repeat split. Qed.




(** * Further properties of the code *)

(** ** Row Mapper: who succeeds *)

Lemma make_row_known_format (item row : gmap string pyval)
    (input_key output_key out_format : string) (system_prompt : option string) :
  make_row item input_key output_key out_format system_prompt = Ok row →
  known_format out_format.
Proof.
  unfold make_row, known_format.
  destruct (is_None _ || is_None _); [done |].
  destruct (negb _ || negb _); [done |].
  destruct (String.eqb out_format "single_turn") eqn:H1;
    [left; by apply String.eqb_eq |].
  destruct (String.eqb out_format "messages") eqn:H2; [| done].
  right. by apply String.eqb_eq.
Qed.

(** X1: [make_row] returns a row exactly when both designated fields
    hold strings and the output shape is one of the two known ones. *)
Theorem make_row_succeeds_iff (item : gmap string pyval)
    (input_key output_key out_format : string) (system_prompt : option string) :
  (∃ row, make_row item input_key output_key out_format system_prompt = Ok row)
  ↔ (∃ q a, item !! input_key = Some (PStr q)
            ∧ item !! output_key = Some (PStr a))
    ∧ known_format out_format.
Proof.
  split.
  - intros [row H]. split; [| by eapply make_row_known_format].
    unfold make_row, dict_get in H.
    destruct (item !! input_key) as [[]|]; try done;
      destruct (item !! output_key) as [[]|]; try done.
    by eauto.
  - intros [(q & a & Hq & Ha) [-> | ->]]; unfold make_row, dict_get;
      rewrite Hq, Ha; simpl; by eexists.
Qed.

(** X2: with both designated fields holding strings, a shape that is
    neither [single_turn] nor [messages] makes the mapper raise the
    unknown-format ValueError naming that shape. *)
Theorem make_row_unknown_format (item : gmap string pyval)
    (input_key output_key out_format q a : string)
    (system_prompt : option string) :
  item !! input_key = Some (PStr q) →
  item !! output_key = Some (PStr a) →
  ¬ known_format out_format →
  make_row item input_key output_key out_format system_prompt
  = Raise (ValueError_unknown_format out_format).
Proof.
  intros Hq Ha Hf. unfold make_row, dict_get. rewrite Hq, Ha. simpl.
  destruct (String.eqb out_format "single_turn") eqn:H1.
  { exfalso. apply Hf. left. by apply String.eqb_eq. }
  destruct (String.eqb out_format "messages") eqn:H2; [| done].
  exfalso. apply Hf. right. by apply String.eqb_eq.
Qed.

Lemma make_row_unknown_format_witness :
  make_row qa_item "question" "response" "chat" None
  = Raise (ValueError_unknown_format "chat").
Proof.
  apply (make_row_unknown_format qa_item "question" "response" "chat"
           "2+2?" "4" None); [reflexivity | reflexivity |].
  intros [H | H]; discriminate H.
Defined.

(** ** Item Reader: edge cases *)

Lemma spaces_strip l : Forall (λ b, is_space b = true) l → strip l = [].
Proof.
  intros H. unfold strip.
  assert (lstrip l = []) as ->; [| done].
  induction H as [|b l Hb _ IH]; [done |]. simpl. by rewrite Hb.
Qed.

Lemma readlines_spaces content :
  Forall (λ b, is_space b = true) content →
  Forall (λ l, strip l = []) (readlines content).
Proof.
  intros H.
  assert (Forall (Forall (λ b, is_space b = true)) (readlines content)) as Hl.
  { induction H as [|b rest Hb _ IH]; [constructor |]. simpl.
    destruct (decide (b = LF)); [by repeat constructor |].
    destruct (readlines rest) as [|line lines]; [by repeat constructor |].
    inversion IH; subst. by repeat constructor. }
  eapply Forall_impl; [exact Hl |]. intros l. apply spaces_strip.
Qed.

Lemma peek_spaces content :
  Forall (λ b, is_space b = true) content → peek content ≠ Some LBRACKET.
Proof.
  intros H Hp. apply peek_elem in Hp. rewrite Forall_forall in H.
  by apply (is_space_not_bracket LBRACKET (H _ Hp)).
Qed.

Section ReaderEdges.
Variable json_loads : bytes → result pyval.
Variable ijson : option (bytes → list pyval * option exn).

Lemma iter_lines_all_blank lines :
  Forall (λ l, strip l = []) lines → iter_lines json_loads lines = Gen [] None.
Proof.
  induction 1 as [|l lines Hl _ IH]; [done |]. simpl. by rewrite Hl.
Qed.

(** A file that is empty or holds only whitespace yields no record and
    raises nothing: no line of it is decoded. *)
Lemma iter_items_spaces path content :
  Forall (λ b, is_space b = true) content →
  iter_items json_loads ijson path content = Gen [] None.
Proof.
  intros H. unfold iter_items.
  rewrite decide_False by (by apply peek_spaces).
  by apply iter_lines_all_blank, readlines_spaces.
Qed.

Lemma yield_dicts_stop ds v rest ending :
  (∀ d, v ≠ PDict d) →
  yield_dicts ((PDict <$> ds) ++ v :: rest) ending
  = Gen ds (Some (ValueError_expected_dict (type_of v))).
Proof.
  intros Hv. induction ds as [|d ds IH].
  - simpl. destruct v; try done. by destruct (Hv d).
  - rewrite fmap_cons. cbn [app yield_dicts]. by rewrite IH.
Qed.

(** X4: in array mode the Reader yields the mappings that precede the
    first element that is not a mapping, then raises the ValueError naming
    that element's type; nothing after it is looked at. *)
Theorem iter_items_array_not_dict path content ds v rest ending :
  array_parses json_loads ijson content ((PDict <$> ds) ++ v :: rest) ending →
  (∀ d, v ≠ PDict d) →
  iter_items json_loads ijson path content
  = Gen ds (Some (ValueError_expected_dict (type_of v))).
Proof.
  intros [Hp Hd] Hv. unfold iter_items. rewrite decide_True by done.
  unfold iter_array. destruct ijson as [items|].
  - rewrite Hd. by apply yield_dicts_stop.
  - destruct Hd as [-> _]. by apply yield_dicts_stop.
Qed.

Lemma decode_lines_app segs rs tl :
  jsonl_lines json_loads segs rs →
  decode_lines json_loads (filter (λ l, ¬ blank l) (segs ++ tl))
  = Gen (rs ++ yielded (decode_lines json_loads (filter (λ l, ¬ blank l) tl)))
        (raised (decode_lines json_loads (filter (λ l, ¬ blank l) tl))).
Proof.
  induction 1 as [|l segs rs Hl Hb _ IH|l segs r rs Hl Hb Hd _ IH].
  - simpl. by destruct (decode_lines _ _).
  - rewrite <- app_comm_cons, filter_cons, decide_False by tauto. exact IH.
  - rewrite <- app_comm_cons, filter_cons, decide_True by done.
    simpl. by rewrite Hd, IH.
Qed.

(** X5: in line-delimited mode the first line that does not decode to a
    mapping ends the run: the records of the lines before it are yielded,
    then that line's error is raised, and no later line is decoded. *)
Theorem iter_jsonl_first_error segs rs bad rest e :
  jsonl_lines json_loads segs rs →
  LF ∉ bad → ¬ blank bad →
  line_error json_loads bad = Some e →
  Forall (λ l, LF ∉ l) rest →
  iter_jsonl json_loads (join_lines (segs ++ bad :: rest)) = Gen rs (Some e).
Proof.
  intros Hsegs Hlf Hnb He Hrest.
  rewrite iter_jsonl_decode.
  - rewrite (decode_lines_app _ _ _ Hsegs).
    rewrite filter_cons, decide_True by done. simpl.
    unfold line_error in He.
    destruct (json_loads (strip bad)) as [[]|];
      simplify_eq; simpl; by rewrite ?app_nil_r.
  - apply Forall_app. split; [by eapply jsonl_lines_no_lf | by constructor].
Qed.

Lemma decode_lines_strip segs segs' :
  Forall2 (λ l l', strip l = strip l') segs segs' →
  decode_lines json_loads (filter (λ l, ¬ blank l) segs)
  = decode_lines json_loads (filter (λ l, ¬ blank l) segs').
Proof.
  induction 1 as [|l l' segs segs' Hs _ IH]; [done |].
  rewrite !filter_cons. unfold blank in *.
  destruct (decide (¬ strip l = [])) as [Hb | Hb].
  - rewrite decide_True by (by rewrite <- Hs). simpl. by rewrite <- Hs, IH.
  - rewrite decide_False by (by rewrite <- Hs). exact IH.
Qed.

(** X6: in line-delimited mode only the stripped lines matter: two files
    whose lines agree after [strip()] (different indentation, trailing
    spaces, \r\n instead of \n) yield the same records and raise the
    same error. *)
Theorem iter_jsonl_strip_invariant segs segs' :
  Forall (λ l, LF ∉ l) segs →
  Forall (λ l, LF ∉ l) segs' →
  Forall2 (λ l l', strip l = strip l') segs segs' →
  iter_jsonl json_loads (join_lines segs)
  = iter_jsonl json_loads (join_lines segs').
Proof.
  intros H1 H2 Hs. rewrite !iter_jsonl_decode by done.
  by apply decode_lines_strip.
Qed.

End ReaderEdges.

Lemma iter_items_array_not_dict_witness :
  iter_items ref_loads None "mixed.json" mixed_array_file
  = Gen [qa_item] (Some (ValueError_expected_dict TInt)).
Proof.
  apply (iter_items_array_not_dict ref_loads None "mixed.json"
           mixed_array_file [qa_item] (PInt 5) [PDict ∅] None).
  - split; [| split]; vm_compute; reflexivity.
  - discriminate.
Defined.

Lemma iter_jsonl_first_error_witness :
  iter_jsonl ref_loads (join_lines truncated_segs)
  = Gen [qa_item] (Some (JSONDecodeError "Expecting value")).
Proof.
  apply (iter_jsonl_first_error ref_loads
           [json_text "{'question': '2+2?', 'response': '4'}"; json_text ""]
           [qa_item]
           (json_text "{'question': 'hi', 'respon")
           [json_text "{'question': 'x', 'response': 'y'}"]).
  - apply jsonl_record;
      [apply (bool_decide_unpack _); by vm_compute
      | intros Hb; vm_compute in Hb; discriminate
      | vm_compute; reflexivity |].
    apply jsonl_blank;
      [apply (bool_decide_unpack _); by vm_compute | vm_compute; reflexivity |].
    constructor.
  - apply (bool_decide_unpack _). by vm_compute.
  - intros Hb. vm_compute in Hb. discriminate.
  - vm_compute. reflexivity.
  - apply (bool_decide_unpack _). by vm_compute.
Defined.

Lemma iter_jsonl_strip_invariant_witness :
  iter_jsonl ref_loads (join_lines crlf_segs)
  = iter_jsonl ref_loads (join_lines jsonl_segs).
Proof.
  apply (iter_jsonl_strip_invariant ref_loads crlf_segs jsonl_segs).
  - apply (bool_decide_unpack _). by vm_compute.
  - apply (bool_decide_unpack _). by vm_compute.
  - unfold crlf_segs, jsonl_segs.
    repeat (constructor; [vm_compute; reflexivity |]). constructor.
Defined.

(** ** Columnar Writer: what every run keeps *)

Lemma tables_written_app tr tr' :
  tables_written (tr ++ tr') = tables_written tr ++ tables_written tr'.
Proof.
  induction tr as [|ev tr IH]; [done |]. destruct ev; simpl; by rewrite IH.
Qed.

Lemma rows_written_tables tr :
  rows_written tr = concat (table_rows <$> tables_written tr).
Proof.
  induction tr as [|ev tr IH]; [done |]. destruct ev; simpl; by rewrite IH.
Qed.

Lemma full_tables_length m ts :
  Forall (λ t, length (table_rows t) = m) ts →
  length (concat (table_rows <$> ts)) = m * length ts.
Proof.
  induction 1 as [|t ts Ht _ IH]; [simpl; lia |].
  rewrite fmap_cons. cbn [concat length]. rewrite length_app, Ht, IH. lia.
Qed.


Lemma batch_limit_flush (batch_size : Z) (n : nat) :
  n < batch_limit batch_size →
  (Z.of_nat (S n) >=? batch_size)%Z = true → S n = batch_limit batch_size.
Proof. unfold batch_limit. intros H1 H2. apply Z.geb_le in H2. lia. Qed.

Lemma batch_limit_keep (batch_size : Z) (n : nat) :
  (Z.of_nat (S n) >=? batch_size)%Z = false → S n < batch_limit batch_size.
Proof.
  unfold batch_limit. intros H. rewrite Z.geb_leb in H. apply Z.leb_gt in H. lia.
Qed.

Lemma batch_limit_pos batch_size : 0 < batch_limit batch_size.
Proof. unfold batch_limit. lia. Qed.

Section WriterRuns.
Variable json_loads : bytes → result pyval.
Variable ijson : option (bytes → list pyval * option exn).
Variable io : io_env.

(** [flush] case by case. *)
Lemma flush_run output_path sch s :
  flush io output_path sch s =
  match buf s with
  | [] => (Ok (), s)
  | _ :: _ =>
      let t := Table sch (buf s) in
      let w := {| pw_path := output_path; pw_schema := sch |} in
      match writer s with
      | Some w0 =>
          if write_ok io (writes (trace s))
          then (Ok (), WState (Some w0) [] (total s + length (buf s))
                         (trace s ++ [EvWriteTable t]))
          else (Raise (OSError "write_table"), s)
      | None =>
          if open_ok io then
            if write_ok io (writes (trace s ++ [EvOpen w]))
            then (Ok (), WState (Some w) [] (total s + length (buf s))
                           ((trace s ++ [EvOpen w]) ++ [EvWriteTable t]))
            else (Raise (OSError "write_table"),
                  WState (Some w) (buf s) (total s) (trace s ++ [EvOpen w]))
          else (Raise (OSError "open"), s)
      end
  end.
Proof.
  destruct s as [[w0|] [|row b] n tr]; unfold flush, open_writer, write_table;
    run_M; try done.
  - by destruct (write_ok io _).
  - destruct (open_ok io); run_M; [| done]. by destruct (write_ok io _).
Qed.

(** The loop body case by case. *)
Lemma consume_run output_path input_key output_key out_format system_prompt
    batch_size sch it s :
  consume io output_path input_key output_key out_format system_prompt
    batch_size sch it s =
  match make_row it input_key output_key out_format system_prompt with
  | Raise e => (Raise e, s)
  | Ok row =>
      let s1 := WState (writer s) (buf s ++ [row]) (total s) (trace s) in
      if (Z.of_nat (length (buf s ++ [row])) >=? batch_size)%Z
      then flush io output_path sch s1 else (Ok (), s1)
  end.
Proof.
  unfold consume. destruct (make_row _ _ _ _ _); [| done].
  destruct s as [w b n tr]. run_M. by destruct (_ >=? _)%Z.
Qed.

(** The [try] block case by case. *)
Lemma try_block_run path content output_path input_key output_key out_format
    system_prompt batch_size sch s :
  try_block json_loads ijson io path content output_path input_key output_key
    out_format system_prompt batch_size sch s =
  let g := iter_items json_loads ijson path content in
  match for_each (yielded g)
          (consume io output_path input_key output_key out_format
             system_prompt batch_size sch) s with
  | (Ok _, s1) =>
      match raised g with
      | Some e => (Raise e, s1)
      | None => flush io output_path sch s1
      end
  | (Raise e, s1) => (Raise e, s1)
  end.
Proof.
  unfold try_block, for_gen. rewrite !bind_run. cbv zeta.
  destruct (for_each _ _ s) as [[[]|e] s1]; [| done].
  by destruct (raised _).
Qed.

Lemma try_block_preserves (I : wstate → Prop) path content output_path
    input_key output_key out_format system_prompt batch_size sch :
  preserves I (flush io output_path sch) →
  (∀ it, preserves I (consume io output_path input_key output_key out_format
                        system_prompt batch_size sch it)) →
  preserves I (try_block json_loads ijson io path content output_path
                 input_key output_key out_format system_prompt batch_size sch).
Proof.
  intros Hf Hc. apply preserves_bind; [| by intros _].
  by apply preserves_for_gen.
Qed.

(** *** The rows mapped so far *)

Lemma flush_rows output_path sch s :
  rows_so_far (flush io output_path sch s).2 = rows_so_far s
  ∧ ((flush io output_path sch s).1 = Ok () →
     buf (flush io output_path sch s).2 = []).
Proof.
  rewrite flush_run. destruct s as [w b n tr]. unfold rows_so_far. simpl.
  destruct b as [|row b]; [done |]. cbv zeta.
  destruct w as [w|].
  - destruct (write_ok io _); simpl; [| done].
    rewrite rows_written_app. simpl. by rewrite !app_nil_r.
  - destruct (open_ok io); [| done].
    destruct (write_ok io _); simpl.
    + rewrite !rows_written_app. simpl. by rewrite !app_nil_r.
    + rewrite rows_written_app. simpl. by rewrite !app_nil_r.
Qed.

Lemma consume_rows output_path input_key output_key out_format system_prompt
    batch_size sch it s :
  let run := consume io output_path input_key output_key out_format
               system_prompt batch_size sch it s in
  (∃ row, make_row it input_key output_key out_format system_prompt = Ok row
          ∧ rows_so_far run.2 = rows_so_far s ++ [row])
  ∨ (∃ e, make_row it input_key output_key out_format system_prompt = Raise e
          ∧ run = (Raise e, s)).
Proof.
  intros run. subst run. rewrite consume_run.
  destruct (make_row _ _ _ _ _) as [row | e]; [left | right; by eexists].
  exists row. split; [done |]. cbv zeta.
  destruct (_ >=? _)%Z.
  - destruct (flush_rows output_path sch
                (WState (writer s) (buf s ++ [row]) (total s) (trace s)))
      as [-> _].
    unfold rows_so_far. simpl. by rewrite app_assoc.
  - unfold rows_so_far. simpl. by rewrite app_assoc.
Qed.

Lemma for_each_rows output_path input_key output_key out_format system_prompt
    batch_size sch items s :
  let run := for_each items
               (consume io output_path input_key output_key out_format
                  system_prompt batch_size sch) s in
  ∃ done rows,
    done `prefix_of` items
    ∧ maps_to input_key output_key out_format system_prompt done rows
    ∧ rows_so_far run.2 = rows_so_far s ++ rows
    ∧ (run.1 = Ok () → done = items).
Proof.
  revert s. induction items as [|it items IH]; intros s run; subst run.
  - exists [], []. repeat split; try done; [constructor | by rewrite app_nil_r].
  - simpl. rewrite bind_run.
    destruct (consume_rows output_path input_key output_key out_format
                system_prompt batch_size sch it s) as [(row & Hrow & Hr)
                                                      | (e & He & Hrun)].
    + destruct (consume _ _ _ _ _ _ _ _ it s) as [[[]|e] s1]; simpl in Hr.
      * destruct (IH s1) as (done & rows & Hp & Hm & Hrs & Hok).
        exists (it :: done), (row :: rows). repeat split.
        -- by apply prefix_cons.
        -- by constructor.
        -- by rewrite Hrs, Hr, <- app_assoc.
        -- intros H. by rewrite (Hok H).
      * exists [it], [row]. repeat split; try done.
        -- apply prefix_cons, prefix_nil.
        -- by repeat constructor.
    + rewrite Hrun. exists [], []. repeat split; try done.
      * apply prefix_nil.
      * constructor.
      * by rewrite app_nil_r.
Qed.

(** What the [try] block leaves, in every run: the rows mapped from a
    prefix of the records, all of them when it ends normally, in which
    case the Reader raised nothing and the buffer is empty. *)
Lemma try_block_rows path content output_path input_key output_key out_format
    system_prompt batch_size sch s :
  let g := iter_items json_loads ijson path content in
  let run := try_block json_loads ijson io path content output_path input_key
               output_key out_format system_prompt batch_size sch s in
  ∃ done rows,
    done `prefix_of` yielded g
    ∧ maps_to input_key output_key out_format system_prompt done rows
    ∧ rows_so_far run.2 = rows_so_far s ++ rows
    ∧ (run.1 = Ok () → done = yielded g ∧ raised g = None ∧ buf run.2 = []).
Proof.
  intros g run. subst run. rewrite try_block_run. fold g. cbv zeta.
  destruct (for_each_rows output_path input_key output_key out_format
              system_prompt batch_size sch (yielded g) s)
    as (done & rows & Hp & Hm & Hrs & Hok).
  destruct (for_each _ _ s) as [[[]|e] s1]; simpl in *.
  - exists done, rows. destruct (raised g) as [e|].
    + by repeat split.
    + destruct (flush_rows output_path sch s1) as [Hfr Hfb].
      repeat split; try done; [by rewrite Hfr | by apply Hok | by apply Hfb].
  - exists done, rows. by repeat split.
Qed.

End WriterRuns.

Lemma batched_count m ts :
  0 < m → batched m ts →
  length ts = (length (concat (table_rows <$> ts)) + m - 1) / m.
Proof.
  intros Hm (full & last & -> & Hfull & Hlast).
  rewrite fmap_app, concat_app, !length_app, (full_tables_length m full Hfull).
  destruct Hlast as [-> | (t & -> & Ht)]; simpl.
  - apply (Nat.div_unique _ m _ (m - 1)); lia.
  - rewrite app_nil_r.
    apply (Nat.div_unique _ m _ (length (table_rows t) - 1)); lia.
Qed.


Section WriterProperties.
Variable json_loads : bytes → result pyval.
Variable ijson : option (bytes → list pyval * option exn).
Variable io : io_env.

(** *** Batches *)

Lemma consume_full output_path input_key output_key out_format system_prompt
    batch_size sch it s :
  let m := batch_limit batch_size in
  let run := consume io output_path input_key output_key out_format
               system_prompt batch_size sch it s in
  Forall (λ t, length (table_rows t) = m) (tables_written (trace s)) →
  length (buf s) < m →
  Forall (λ t, length (table_rows t) = m) (tables_written (trace run.2))
  ∧ (run.1 = Ok () → length (buf run.2) < m).
Proof.
  intros m run Hfull Hb. subst run. rewrite consume_run.
  destruct (make_row _ _ _ _ _) as [row | e]; [| done]. cbv zeta.
  destruct (_ >=? _)%Z eqn:Hge; rewrite length_app, Nat.add_1_r in Hge.
  - apply (batch_limit_flush _ _ Hb) in Hge. fold m in Hge.
    rewrite flush_run. simpl.
    destruct (buf s ++ [row]) as [|x l] eqn:Hbuf;
      [by destruct (buf s) |].
    assert (length (x :: l) = m) as Hlen
      by (rewrite <- Hbuf, length_app, Nat.add_1_r; done).
    pose proof (batch_limit_pos batch_size) as Hpos. fold m in Hpos.
    destruct (writer s) as [w|].
    + destruct (write_ok io _); simpl; [| done].
      rewrite tables_written_app, Forall_app. simpl.
      split; [| done]. split; [done | by repeat constructor].
    + destruct (open_ok io); [| done].
      destruct (write_ok io _); simpl.
      * rewrite !tables_written_app, !Forall_app. simpl.
        split; [| done]. split; [by split | by repeat constructor].
      * rewrite tables_written_app, Forall_app. simpl. by split.
  - apply batch_limit_keep in Hge. fold m in Hge. simpl.
    split; [done |]. intros _. by rewrite length_app, Nat.add_1_r.
Qed.

Lemma for_each_full output_path input_key output_key out_format system_prompt
    batch_size sch items s :
  let m := batch_limit batch_size in
  let run := for_each items
               (consume io output_path input_key output_key out_format
                  system_prompt batch_size sch) s in
  Forall (λ t, length (table_rows t) = m) (tables_written (trace s)) →
  length (buf s) < m →
  Forall (λ t, length (table_rows t) = m) (tables_written (trace run.2))
  ∧ (run.1 = Ok () → length (buf run.2) < m).
Proof.
  intros m. revert s. induction items as [|it items IH]; intros s run Hfull Hb;
    subst run; [done |].
  simpl. rewrite bind_run.
  destruct (consume_full output_path input_key output_key out_format
              system_prompt batch_size sch it s Hfull Hb) as [Hfull1 Hb1].
  destruct (consume _ _ _ _ _ _ _ _ it s) as [[[]|e] s1]; simpl in *.
  - by apply IH; [| apply Hb1].
  - done.
Qed.

Lemma try_block_batched path content output_path input_key output_key
    out_format system_prompt batch_size sch s :
  let m := batch_limit batch_size in
  let run := try_block json_loads ijson io path content output_path input_key
               output_key out_format system_prompt batch_size sch s in
  Forall (λ t, length (table_rows t) = m) (tables_written (trace s)) →
  length (buf s) < m →
  batched m (tables_written (trace run.2)).
Proof.
  intros m run Hfull Hb. subst run. rewrite try_block_run. cbv zeta.
  destruct (for_each_full output_path input_key output_key out_format
              system_prompt batch_size sch
              (yielded (iter_items json_loads ijson path content)) s Hfull Hb)
    as [Hfull1 Hb1].
  destruct (for_each _ _ s) as [[[]|e] s1]; simpl in *;
    [| by exists (tables_written (trace s1)), []; rewrite app_nil_r; auto].
  destruct (raised _);
    [by exists (tables_written (trace s1)), []; rewrite app_nil_r; auto |].
  specialize (Hb1 eq_refl). rewrite flush_run.
  destruct (buf s1) as [|x l] eqn:Hbuf;
    [by exists (tables_written (trace s1)), []; rewrite app_nil_r; auto |].
  cbv zeta. destruct (writer s1) as [w|].
  - destruct (write_ok io _); simpl;
      [| by exists (tables_written (trace s1)), []; rewrite app_nil_r; auto].
    rewrite tables_written_app. simpl.
    eexists _, _. split; [done |]. split; [done |]. right.
    eexists. split; [done |]. simpl in *. lia.
  - destruct (open_ok io);
      [| by exists (tables_written (trace s1)), []; rewrite app_nil_r; auto].
    destruct (write_ok io _); simpl.
    + rewrite !tables_written_app. simpl. rewrite app_nil_r.
      eexists _, _. split; [done |]. split; [done |]. right.
      eexists. split; [done |]. simpl in *. lia.
    + rewrite tables_written_app. simpl.
      exists (tables_written (trace s1)), []. auto.
Qed.

(** X9: in every run the tables written are full batches of exactly
    [max(1, batch_size)] rows followed by at most one shorter, non-empty
    batch, so no batch exceeds the configured size and the file has
    ceil(rows / max(1, batch_size)) row groups. *)
Theorem write_parquet_batched path content output_path input_key output_key
    out_format system_prompt batch_size :
  let m := batch_limit batch_size in
  let run := write_parquet json_loads ijson io path content output_path
               input_key output_key out_format system_prompt batch_size in
  batched m (tables_written run.2)
  ∧ length (tables_written run.2) = (length (rows_written run.2) + m - 1) / m.
Proof.
  intros m run.
  assert (batched m (tables_written run.2)) as Hb.
  { subst run. rewrite write_parquet_unfold.
    destruct (makedirs_ok io); [| by exists [], []; auto]. cbv zeta.
    pose proof (try_block_batched path content output_path input_key
                  output_key out_format system_prompt batch_size
                  (if String.eqb out_format "single_turn"
                   then schema_single_turn else schema_messages)
                  (WState None [] 0 [EvMakedirs output_path])) as H.
    cbv zeta in H. fold m in H.
    destruct (try_block _ _ _ _ _ _ _ _ _ _ _ _ _) as [r s]. simpl in *.
    rewrite tables_written_app.
    replace (tables_written match writer s with
                            | Some _ => [EvClose] | None => [] end)
      with (@nil table) by (by destruct (writer s)).
    rewrite app_nil_r. apply H; [constructor | apply batch_limit_pos]. }
  split; [done |]. rewrite rows_written_tables.
  apply batched_count; [apply batch_limit_pos | done].
Qed.

(** *** One writer, one schema *)

Lemma flush_uses output_path sch :
  preserves (λ s, trace_uses {| pw_path := output_path; pw_schema := sch |}
                    (trace s))
    (flush io output_path sch).
Proof.
  intros s Hs. rewrite flush_run. unfold trace_uses in *.
  destruct (buf s); [done |]. cbv zeta.
  destruct (writer s).
  - destruct (write_ok io _); simpl; [| done].
    rewrite Forall_app. split; [done | by repeat constructor].
  - destruct (open_ok io); [| done].
    destruct (write_ok io _); simpl; rewrite ?Forall_app;
      repeat split; try done; by repeat constructor.
Qed.

Lemma consume_uses output_path input_key output_key out_format system_prompt
    batch_size sch it :
  preserves (λ s, trace_uses {| pw_path := output_path; pw_schema := sch |}
                    (trace s))
    (consume io output_path input_key output_key out_format system_prompt
       batch_size sch it).
Proof.
  intros s Hs. rewrite consume_run.
  destruct (make_row _ _ _ _ _); [| done]. cbv zeta.
  destruct (_ >=? _)%Z; [| done]. by apply flush_uses.
Qed.

(** X12: every file operation of a run is on one writer, opened on
    [output_path] with the schema chosen from [out_format] at the start
    ([single_turn]'s two string columns, the messages schema otherwise),
    and every table written carries that schema. *)
Theorem write_parquet_one_schema path content output_path input_key
    output_key out_format system_prompt batch_size :
  trace_uses {| pw_path := output_path; pw_schema := schema_of out_format |}
    (write_parquet json_loads ijson io path content output_path input_key
       output_key out_format system_prompt batch_size).2.
Proof.
  rewrite write_parquet_unfold.
  destruct (makedirs_ok io); [| constructor]. cbv zeta.
  fold (schema_of out_format).
  pose proof (try_block_preserves json_loads ijson io _ path content
                output_path input_key output_key out_format system_prompt
                batch_size (schema_of out_format)
                (flush_uses output_path (schema_of out_format))
                (consume_uses output_path input_key output_key out_format
                   system_prompt batch_size (schema_of out_format))
                (WState None [] 0 [EvMakedirs output_path])) as H.
  destruct (try_block _ _ _ _ _ _ _ _ _ _ _ _ _) as [r s]. simpl in *.
  unfold trace_uses in *. rewrite Forall_app. split.
  - apply H. by repeat constructor.
  - destruct (writer s); by repeat constructor.
Qed.

(** *** What a normal return means *)

(** X7: when [write_parquet] returns a count, the Reader raised nothing,
    every record it yielded was mapped, the rows written are exactly the
    mapped rows in order, and the count is the number of records: no
    record is skipped. *)
Theorem write_parquet_ok_complete path content output_path input_key
    output_key out_format system_prompt batch_size n :
  let g := iter_items json_loads ijson path content in
  let run := write_parquet json_loads ijson io path content output_path
               input_key output_key out_format system_prompt batch_size in
  run.1 = Ok n →
  raised g = None
  ∧ maps_to input_key output_key out_format system_prompt (yielded g)
      (rows_written run.2)
  ∧ n = length (yielded g).
Proof.
  intros g run Hn.
  destruct (write_parquet_run json_loads ijson io path content output_path
              input_key output_key out_format system_prompt batch_size)
    as [_ Hcount].
  apply Hcount in Hn as Hlen. fold run in Hlen.
  assert (raised g = None
          ∧ maps_to input_key output_key out_format system_prompt (yielded g)
              (rows_written run.2)) as [Hr Hm].
  { subst run. rewrite write_parquet_unfold in Hn |- *.
    destruct (makedirs_ok io); [| done]. cbv zeta in Hn |- *.
    destruct (try_block_rows json_loads ijson io path content output_path
                input_key output_key out_format system_prompt batch_size
                (if String.eqb out_format "single_turn"
                 then schema_single_turn else schema_messages)
                (WState None [] 0 [EvMakedirs output_path]))
      as (done & rows & _ & Hmap & Hrs & Hok).
    destruct (try_block _ _ _ _ _ _ _ _ _ _ _ _ _) as [[[]|e] s];
      simpl in *; [| done].
    destruct (Hok eq_refl) as (-> & Hraised & Hbuf).
    split; [done |]. unfold rows_so_far in Hrs. simpl in Hrs.
    rewrite Hbuf, app_nil_r in Hrs.
    rewrite rows_written_app, Hrs.
    replace (rows_written match writer s with
                          | Some _ => [EvClose] | None => [] end)
      with (@nil (gmap string pyval)) by (by destruct (writer s)).
    by rewrite app_nil_r. }
  repeat split; try done.
  rewrite Hlen. symmetry. by eapply Forall2_length.
Qed.

(** X8: in every run, with any error and any I/O failure, the rows in the
    output file are an initial segment of the rows mapped, in order, from
    an initial segment of the records read: no row is invented, reordered
    or written twice. *)
Theorem write_parquet_rows_prefix path content output_path input_key
    output_key out_format system_prompt batch_size :
  let g := iter_items json_loads ijson path content in
  let run := write_parquet json_loads ijson io path content output_path
               input_key output_key out_format system_prompt batch_size in
  ∃ done rows,
    done `prefix_of` yielded g
    ∧ maps_to input_key output_key out_format system_prompt done rows
    ∧ rows_written run.2 `prefix_of` rows.
Proof.
  intros g run. subst run. rewrite write_parquet_unfold.
  destruct (makedirs_ok io);
    [| exists [], []; repeat split; [apply prefix_nil | constructor | done]].
  cbv zeta.
  destruct (try_block_rows json_loads ijson io path content output_path
              input_key output_key out_format system_prompt batch_size
              (if String.eqb out_format "single_turn"
               then schema_single_turn else schema_messages)
              (WState None [] 0 [EvMakedirs output_path]))
    as (done & rows & Hp & Hmap & Hrs & _).
  destruct (try_block _ _ _ _ _ _ _ _ _ _ _ _ _) as [r s]. simpl in *.
  exists done, rows. repeat split; try done.
  unfold rows_so_far in Hrs. simpl in Hrs. rewrite <- Hrs, rows_written_app.
  replace (rows_written match writer s with
                        | Some _ => [EvClose] | None => [] end)
    with (@nil (gmap string pyval)) by (by destruct (writer s)).
  rewrite app_nil_r. by apply prefix_app_r.
Qed.

(** *** The first error aborts the run *)




(** *** Nothing to write *)

Lemma for_each_unknown_format output_path input_key output_key out_format
    system_prompt batch_size sch items s :
  ¬ known_format out_format →
  for_each items
    (consume io output_path input_key output_key out_format system_prompt
       batch_size sch) s
  = match items with
    | [] => (Ok (), s)
    | it :: _ =>
        match make_row it input_key output_key out_format system_prompt with
        | Raise e => (Raise e, s)
        | Ok _ => (Ok (), s)
        end
    end.
Proof.
  intros Hf. destruct items as [|it items]; [done |].
  simpl. rewrite bind_run, consume_run.
  destruct (make_row _ _ _ _ _) as [row | e] eqn:Hrow; [| done].
  destruct Hf. by eapply make_row_known_format.
Qed.

(** X13: with an output shape that is neither [single_turn] nor
    [messages], [write_parquet] never opens the output file: its only
    file operation is creating the directories, and as soon as the input
    has a record the run fails. *)
Theorem write_parquet_unknown_format path content output_path input_key
    output_key out_format system_prompt batch_size :
  ¬ known_format out_format →
  let g := iter_items json_loads ijson path content in
  let run := write_parquet json_loads ijson io path content output_path
               input_key output_key out_format system_prompt batch_size in
  run.2 = (if makedirs_ok io then [EvMakedirs output_path] else [])
  ∧ (yielded g ≠ [] → ∃ e, run.1 = Raise e).
Proof.
  intros Hf g run. subst run. rewrite write_parquet_unfold.
  destruct (makedirs_ok io); [| by eauto]. cbv zeta.
  rewrite try_block_run. fold g. cbv zeta.
  rewrite for_each_unknown_format by done.
  destruct (yielded g) as [|it items].
  - split; [| done]. destruct (raised g); [done |]. by rewrite flush_run.
  - destruct (make_row _ _ _ _ _) as [row | e] eqn:Hrow.
    + destruct Hf. by eapply make_row_known_format.
    + split; [done | by eauto].
Qed.

(** X3: a file that is empty or holds only whitespace yields no record
    and raises nothing, whatever the decoders; [write_parquet] then
    returns 0 and, apart from creating the directories, touches no file. *)
Theorem write_parquet_blank_input path content output_path input_key
    output_key out_format system_prompt batch_size :
  Forall (λ b, is_space b = true) content →
  iter_items json_loads ijson path content = Gen [] None
  ∧ (makedirs_ok io = true →
     write_parquet json_loads ijson io path content output_path input_key
       output_key out_format system_prompt batch_size
     = (Ok 0, [EvMakedirs output_path])).
Proof.
  intros Hc.
  pose proof (iter_items_spaces json_loads ijson path content Hc) as Hg.
  split; [done |]. intros Hmk.
  rewrite write_parquet_unfold, Hmk. cbv zeta.
  by rewrite try_block_run, Hg.
Qed.

End WriterProperties.

(** ** The further properties on the examples *)

Lemma write_parquet_blank_input_witness :
  iter_items ref_loads None "blank.jsonl" blank_file = Gen [] None
  ∧ write_parquet ref_loads None io_good "blank.jsonl" blank_file
      "out/qa.parquet" "question" "response" "single_turn" None 4096
    = (Ok 0, [EvMakedirs "out/qa.parquet"]).
Proof.
  destruct (write_parquet_blank_input ref_loads None io_good "blank.jsonl"
              blank_file "out/qa.parquet" "question" "response" "single_turn"
              None 4096) as [Hgen Hrun].
  - apply (bool_decide_unpack _). vm_compute. exact I.
  - split; [exact Hgen | apply Hrun; reflexivity].
Defined.

Lemma write_parquet_ok_complete_witness :
  let g := iter_items ref_loads None "qa.json" array_file in
  let run := write_parquet ref_loads None io_good "qa.json" array_file
               "out/qa.parquet" "question" "response" "single_turn" None 1 in
  raised g = None
  ∧ maps_to "question" "response" "single_turn" None (yielded g)
      (rows_written run.2)
  ∧ 2 = length (yielded g).
Proof.
  apply (write_parquet_ok_complete ref_loads None io_good "qa.json" array_file
           "out/qa.parquet" "question" "response" "single_turn" None 1 2).
  vm_compute. reflexivity.
Defined.



Lemma write_parquet_unknown_format_witness :
  let g := iter_items ref_loads None "qa.json" array_file in
  let run := write_parquet ref_loads None io_good "qa.json" array_file
               "out/qa.parquet" "question" "response" "chat" None 4096 in
  run.2 = [EvMakedirs "out/qa.parquet"]
  ∧ (yielded g ≠ [] → ∃ e, run.1 = Raise e).
Proof.
  apply (write_parquet_unknown_format ref_loads None io_good "qa.json"
           array_file "out/qa.parquet" "question" "response" "chat" None 4096).
  intros [H | H]; discriminate H.
Defined.

(** Three valid records in batches of two: a full batch, then the rest. *)
Example write_parquet_three_in_twos :
  let run := write_parquet ref_loads None io_good "abc.json" three_array_file
               "out/qa.parquet" "question" "response" "single_turn" None 2 in
  run.1 = Ok 3
  ∧ (length ∘ table_rows) <$> tables_written run.2 = [2; 1]
  ∧ rows_written run.2 = abc_rows.
Proof. vm_compute. by repeat split. Qed.
